(** * Verification of the process-animation components

    The components are React function components whose only logic is the
    arithmetic of progress values.  JavaScript numbers are modelled as
    rationals [Q] (the idealisation of the finite doubles used by the code);
    equality of numbers is [Qeq] ([==]).  Comparisons of the source are the
    boolean tests [Qle_bool] and [Qlt_bool] below, so every definition is
    executable. *)

From Stdlib Require Import QArith Lqa List String Bool Arith Lia.
Import ListNotations.
Open Scope Q_scope.
Open Scope string_scope.

(** ** JavaScript number primitives *)

(** [a < b] on numbers. *)
Definition Qlt_bool (a b : Q) : bool := negb (Qle_bool b a).

(** [a >= b] on numbers. *)
Definition Qge_bool (a b : Q) : bool := Qle_bool b a.

(** [Math.min(a, b)] *)
Definition Math_min (a b : Q) : Q := if Qle_bool a b then a else b.

(** [Math.max(a, b)] *)
Definition Math_max (a b : Q) : Q := if Qle_bool b a then a else b.

Lemma Qlt_bool_iff (a b : Q) : Qlt_bool a b = true <-> a < b.
Proof.
  unfold Qlt_bool. rewrite negb_true_iff. split; intro H.
  - destruct (Qlt_le_dec a b) as [Hl|Hl]; [exact Hl|].
    apply Qle_bool_iff in Hl. congruence.
  - destruct (Qle_bool b a) eqn:E; [|reflexivity].
    apply Qle_bool_iff in E. exfalso. apply (Qlt_not_le a b); assumption.
Qed.

Lemma Qle_bool_false (a b : Q) : Qle_bool a b = false -> b < a.
Proof.
  intro E. destruct (Qlt_le_dec b a) as [H|H]; [exact H|].
  apply Qle_bool_iff in H. congruence.
Qed.

(** ** NurseAssessmentAnimation.tsx (src/unnamed/part_000) *)
Module Nurse.

(** [function clamp01(n) { return Math.min(1, Math.max(0, n)); }] *)
Definition clamp01 (n : Q) : Q := Math_min 1 (Math_max 0 n).

(** [function mapRange(v, a, b) {
      if (v <= a) return 0; if (v >= b) return 1; return (v - a) / (b - a); }] *)
Definition mapRange (v a b : Q) : Q :=
  if Qle_bool v a then 0
  else if Qge_bool v b then 1
  else (v - a) / (b - a).

(** The same function with the division made partial: [None] stands for a
    division by zero, which [Q] would otherwise silently map to [0]. *)
Definition checked_div (x y : Q) : option Q :=
  if Qeq_bool y 0 then None else Some (x / y).

Definition mapRange_checked (v a b : Q) : option Q :=
  if Qle_bool v a then Some 0
  else if Qge_bool v b then Some 1
  else checked_div (v - a) (b - a).

(** Timeline slices of the component body. *)
Definition writeProg (step : Q) : Q := clamp01 (mapRange step 0 (35 # 100)).
Definition arrowProg (step : Q) : Q := clamp01 (mapRange step (35 # 100) (55 # 100)).
Definition fileProg (step : Q) : Q := clamp01 (mapRange step (35 # 100) (80 # 100)).

(** [function easeInOutQuad(t) {
      return t < 0.5 ? 2 * t * t : 1 - Math.pow(-2 * t + 2, 2) / 2; }] *)
Definition easeInOutQuad (t : Q) : Q :=
  if Qlt_bool t (1 # 2) then 2 * t * t else 1 - Qpower (-2 * t + 2) 2 / 2.

(** JavaScript truthiness of an optional string prop: [undefined] and the
    empty string are falsy. *)
Definition truthy (o : option string) : bool :=
  match o with
  | None => false
  | Some s => negb (String.eqb s EmptyString)
  end.

(** [FileTransfer]: [None] is [return null]; otherwise the icon is drawn at
    the point of the half-circle arc at length [L * p], represented here by
    the eased parameter [p]. *)
Definition FileTransfer (progress : Q) (fileIconUrl : option string) : option Q :=
  if negb (truthy fileIconUrl) || Qle_bool progress 0 || Qlt_bool 1 progress
  then None
  else Some (easeInOutQuad (clamp01 progress)).

(** The state read and written by one run of the animation-frame callback
    [tick]: the [step] state of the component and the closure variable [last]. *)
Record TickState := { step : Q; last : Q }.

Definition dur : Q := 6000.

(** The updater passed to [setStep]:
    [s => { let ns = s + (dt * speed) / dur; if (ns >= 1) ns = 1; return ns; }] *)
Definition stepUpdater (dt speed s : Q) : Q :=
  let ns := s + (dt * speed) / dur in
  if Qge_bool ns 1 then 1 else ns.

(** [const tick = (now) => { const dt = now - last; last = now;
      if (isPlaying) setStep(...); raf = requestAnimationFrame(tick); }] *)
Definition tick (isPlaying : bool) (speed : Q) (st : TickState) (now : Q) : TickState :=
  let dt := now - last st in
  {| step := if isPlaying then stepUpdater dt speed (step st) else step st;
     last := now |}.

(** The loop, run over the time stamps of successive animation frames. *)
Fixpoint run_ticks (isPlaying : bool) (speed : Q) (st : TickState) (frames : list Q)
  : TickState :=
  match frames with
  | [] => st
  | now :: rest => run_ticks isPlaying speed (tick isPlaying speed st now) rest
  end.

(** Frame time stamps never go backwards, starting from [last]. *)
Fixpoint chronological (last : Q) (frames : list Q) : bool :=
  match frames with
  | [] => true
  | now :: rest => Qle_bool last now && chronological now rest
  end.

(** [showVitals], [showPain], [showNotes]. *)
Definition showVitals (step : Q) : bool := Qge_bool step (6 # 10).
Definition showPain (step : Q) : bool := Qge_bool step (75 # 100).
Definition showNotes (step : Q) : bool := Qge_bool step (9 # 10).

(** The component chosen for [NurseIcon]. *)
Inductive NurseIconKind := ImgNurse (url : string) | SvgNurseCap.

(** [nurseIconUrl ? () => <img src={nurseIconUrl} .../> : SvgNurseCap] *)
Definition NurseIcon (nurseIconUrl : option string) : NurseIconKind :=
  match nurseIconUrl with
  | Some u => if truthy (Some u) then ImgNurse u else SvgNurseCap
  | None => SvgNurseCap
  end.

(** [NurseScribble]: line [i] of the ten lines has the width fraction
    [Math.min(1, Math.max(0, progress * 1.2 - i * 0.08))]. *)
Definition scribblePct (progress : Q) (i : nat) : Q :=
  Math_min 1 (Math_max 0 (progress * (12 # 10) - inject_Z (Z.of_nat i) * (8 # 100))).

(** [new Array(10).fill(0).map((_, i) => ...)] *)
Definition NurseScribble (progress : Q) : list Q := map (scribblePct progress) (seq 0 10).

(** What [ArrowToSystem] draws: the dash length of the line and whether
    the [markerEnd] arrow head is set. *)
Record ArrowRender := { dash : Q; arrowHead : bool }.

(** [if (progress <= 0) return null; const length = 320;
      const dash = Math.max(0.0001, length * progress); ...
      markerEnd={progress > 0.05 ? "url(#arrowHead)" : undefined}] *)
Definition ArrowToSystem (progress : Q) : option ArrowRender :=
  if Qle_bool progress 0 then None
  else
    let length := 320 in
    Some {| dash := Math_max (1 # 10000) (length * progress);
            arrowHead := Qlt_bool (5 # 100) progress |}.

(** The "Arrow + moving file" cell of the stage:
    [{(arrowProg > 0 || fileProg > 0) && (<><ArrowToSystem progress={arrowProg} />
      <FileTransfer progress={fileProg} fileIconUrl={fileIconUrl} /></>)}] *)
Definition arrowAndFile (step : Q) (fileIconUrl : option string)
  : option (option ArrowRender * option Q) :=
  if Qlt_bool 0 (arrowProg step) || Qlt_bool 0 (fileProg step)
  then Some (ArrowToSystem (arrowProg step), FileTransfer (fileProg step) fileIconUrl)
  else None.

(** The completion effect [if (!firedComplete && step >= 1) {
      setFiredComplete(true); onComplete?.(); }], with the number of calls
    of [onComplete] made so far.  Running it on a render whose dependencies
    did not change repeats a run that fired nothing, so it is run on every
    render here. *)
Record CompleteState := { firedComplete : bool; onCompleteCalls : nat }.

Definition completeEffect (st : CompleteState) (step : Q) : CompleteState :=
  if negb (firedComplete st) && Qge_bool step 1
  then {| firedComplete := true; onCompleteCalls := S (onCompleteCalls st) |}
  else st.

(** The effect over the [step] values of successive renders, from mount. *)
Definition run_complete (steps : list Q) : CompleteState :=
  fold_left completeEffect steps {| firedComplete := false; onCompleteCalls := 0 |}.

End Nurse.

(** ** DoctorProcessAnimation.tsx *)
Module Doctor.

Record Step := mkStep { title : string }.

(** The props of the component; [None] is an omitted prop. *)
Record DoctorProcessAnimationProps := {
  doctorIconUrl : option string;
  computerIconUrl : option string;
  fileIconUrl : option string;
  steps : option (list Step);
  start : option bool;
  resetToken : option Z;
  staggerMs : option Q;
  disableFinalHandoff : option bool;
  clinicalNoteText : option string }.

(** The props after the default parameters of the destructuring pattern. *)
Record ResolvedProps := {
  r_steps : list Step;
  r_start : bool;
  r_staggerMs : Q;
  r_disableFinalHandoff : bool;
  r_clinicalNoteText : string }.

Definition default_steps : list Step :=
  [mkStep "Lab Order"; mkStep "Prescription Order"; mkStep "Imaging Order";
   mkStep "Follow up"; mkStep "Referral"].

(** A JavaScript default parameter applies when the argument is [undefined]. *)
Definition with_default {A} (o : option A) (d : A) : A :=
  match o with Some x => x | None => d end.

Definition resolve (p : DoctorProcessAnimationProps) : ResolvedProps :=
  {| r_steps := with_default (steps p) default_steps;
     r_start := with_default (start p) false;
     r_staggerMs := with_default (staggerMs p) 750;
     r_disableFinalHandoff := with_default (disableFinalHandoff p) false;
     r_clinicalNoteText := with_default (clinicalNoteText p) "Clinical Note" |}.

(** [const perItemDelaySec = staggerMs / 2000;] *)
Definition perItemDelaySec (staggerMs : Q) : Q := staggerMs / 2000.

(** [const handoffDelaySec = steps.length * perItemDelaySec + 0.2;] *)
Definition handoffDelaySec (steps : list Step) (staggerMs : Q) : Q :=
  inject_Z (Z.of_nat (List.length steps)) * perItemDelaySec staggerMs + (2 # 10).

(** The [delay] of the transition of each element of [steps.map((s, i) => ...)]. *)
Definition stepDelays (steps : list Step) (staggerMs : Q) : list Q :=
  map (fun i => perItemDelaySec staggerMs * inject_Z (Z.of_nat i))
      (seq 0 (List.length steps)).

(** The hook state of [DoctorProcessAnimation] that decides the runs: the
    ref of [usePrevious(start)], the dependencies [[start, resetToken,
    prevStart]] of the last run of the restart effect, [runId] and
    [noteVisible]. *)
Record Hooks := {
  prevRef : bool;
  lastDeps : option (bool * option Z * bool);
  runId : nat;
  noteVisible : bool }.

(** [React.useRef(value)] is initialised with [start] of the first render. *)
Definition mount (start : bool) : Hooks :=
  {| prevRef := start; lastDeps := None; runId := 0; noteVisible := false |}.

Definition option_Z_eqb (a b : option Z) : bool :=
  match a, b with
  | Some x, Some y => Z.eqb x y
  | None, None => true
  | _, _ => false
  end.

Definition deps_eqb (d1 d2 : bool * option Z * bool) : bool :=
  let '(a1, r1, b1) := d1 in
  let '(a2, r2, b2) := d2 in
  Bool.eqb a1 a2 && option_Z_eqb r1 r2 && Bool.eqb b1 b2.

(** One render with props [start] and [resetToken]: [prevStart] is read
    from the ref; the effect of [usePrevious] then stores [start] in the ref;
    the restart effect runs when its dependencies changed:
    [if ((prevStart === false && start === true) || resetToken !== undefined)
      { setRunId((r) => r + 1); setNoteVisible(false); }] *)
Definition render (st : Hooks) (props : bool * option Z) : Hooks :=
  let '(start, resetToken) := props in
  let prevStart := prevRef st in
  let deps := (start, resetToken, prevStart) in
  let changed := match lastDeps st with
                 | Some d => negb (deps_eqb d deps)
                 | None => true
                 end in
  let fire := changed && ((Bool.eqb prevStart false && Bool.eqb start true)
                          || match resetToken with Some _ => true | None => false end) in
  {| prevRef := start; lastDeps := Some deps;
     runId := if fire then S (runId st) else runId st;
     noteVisible := if fire then false else noteVisible st |}.

(** The renders of one mounted component, the first one being the mount. *)
Definition doctor_renders (first : bool * option Z) (rest : list (bool * option Z)) : Hooks :=
  fold_left render (first :: rest) (mount (fst first)).

(** Number of changes of [start] from [false] to [true]. *)
Fixpoint rising_edges (prev : bool) (starts : list bool) : nat :=
  match starts with
  | [] => 0
  | s :: rest => (if negb prev && s then 1 else 0) + rising_edges s rest
  end.

(** [DOMRect] fields read by [recomputeCoords]. *)
Record Rect := { left : Q; top : Q; width : Q; height : Q }.

Record Coords := { startLeft : Q; startTop : Q; endLeft : Q; endTop : Q }.

(** [recomputeCoords]: [None] is the early return when a ref is not
    attached; otherwise the value passed to [setCoords]. *)
Definition recomputeCoords (container doctor screen : option Rect) : option Coords :=
  match container, doctor, screen with
  | Some cRect, Some dRect, Some sRect =>
      let dCx := left dRect + width dRect * (6 # 10) in
      let dCy := top dRect + height dRect * (45 # 100) in
      let sCx := left sRect + width sRect * (5 # 10) in
      let sCy := top sRect + height sRect * (5 # 10) in
      let fileHalf := 20 in
      Some {| startLeft := dCx - left cRect - fileHalf;
              startTop := dCy - top cRect - fileHalf;
              endLeft := sCx - left cRect - fileHalf;
              endTop := sCy - top cRect - fileHalf |}
  | _, _, _ => None
  end.

(** A rect moved by [(dx, dy)], as after a scroll of the page. *)
Definition translate (dx dy : Q) (r : Rect) : Rect :=
  {| left := left r + dx; top := top r + dy; width := width r; height := height r |}.

End Doctor.

(** ** CombinedAnimation.tsx (src/unnamed/part_001) *)
Module Combined.

(** [function clamp01(n) { return Math.min(1, Math.max(0, n)); }] *)
Definition clamp01 (n : Q) : Q := Math_min 1 (Math_max 0 n).

(** [function cubicBezierPoint(t, x1, y1, cx1, cy1, cx2, cy2, x2, y2)] *)
Definition cubicBezierPoint (t x1 y1 cx1 cy1 cx2 cy2 x2 y2 : Q) : Q * Q :=
  let u := 1 - t in
  let tt := t * t in
  let uu := u * u in
  let uuu := uu * u in
  let ttt := tt * t in
  let x := uuu * x1 + 3 * uu * t * cx1 + 3 * u * tt * cx2 + ttt * x2 in
  let y := uuu * y1 + 3 * uu * t * cy1 + 3 * u * tt * cy2 + ttt * y2 in
  (x, y).

(** [function easeInOutCubic(t) {
      return t < 0.5 ? 4 * t * t * t : 1 - Math.pow(-2 * t + 2, 3) / 2; }] *)
Definition easeInOutCubic (t : Q) : Q :=
  if Qlt_bool t (1 # 2) then 4 * t * t * t else 1 - Qpower (-2 * t + 2) 3 / 2.

(** What [BridgePath] draws for the moving file: its position in percent
    of the 1000 x 200 view box and whether the [motion.img] is rendered. *)
Record BridgeRender := { leftPct : Q; topPct : Q; fileShown : bool }.

Definition BridgePath (progress : Q) (fileIconUrl : option string) : BridgeRender :=
  let p := easeInOutCubic (clamp01 progress) in
  let x1 := 900 in let y1 := -20 in
  let x2 := 120 in let y2 := 180 in
  let cx1 := 900 in let cy1 := 0 in
  let cx2 := 40 in let cy2 := 180 in
  let '(x, y) := cubicBezierPoint p x1 y1 cx1 cy1 cx2 cy2 x2 y2 in
  {| leftPct := x / 1000 * 100; topPct := y / 200 * 100;
     fileShown := Nurse.truthy fileIconUrl |}.

(** The state of [CombinedAnimation] changed by its callbacks. *)
Record Controller := { bridgeRun : nat; bridgeProgC : Q; bottomStartedOnce : bool }.

Definition controller_init : Controller :=
  {| bridgeRun := 0; bridgeProgC := 0; bottomStartedOnce := false |}.

(** [triggerFileRun]: [setBridgeProg(0); setBridgeRun((r) => r + 1);] *)
Definition triggerFileRun (st : Controller) : Controller :=
  {| bridgeRun := S (bridgeRun st); bridgeProgC := 0;
     bottomStartedOnce := bottomStartedOnce st |}.

(** [handleTopComplete]: [triggerFileRun();
      if (!bottomStartedOnce) setBottomStartedOnce(true);] *)
Definition handleTopComplete (st : Controller) : Controller :=
  let st' := triggerFileRun st in
  if negb (bottomStartedOnce st)
  then {| bridgeRun := bridgeRun st'; bridgeProgC := bridgeProgC st';
          bottomStartedOnce := true |}
  else st'.

(** The top pane calls [onComplete], or the effect on [externalRestartKey]
    runs with the key's current value. *)
Inductive ControllerEvent := TopComplete | RestartKeyEffect (key : option Z).

Definition controller_step (st : Controller) (e : ControllerEvent) : Controller :=
  match e with
  | TopComplete => handleTopComplete st
  | RestartKeyEffect key =>
      match key with Some _ => triggerFileRun st | None => st end
  end.

(** The controller states after each event. *)
Fixpoint controller_trace (st : Controller) (evs : list ControllerEvent) : list Controller :=
  match evs with
  | [] => []
  | e :: rest => let st' := controller_step st e in st' :: controller_trace st' rest
  end.

Definition controller_run (st : Controller) (evs : list ControllerEvent) : Controller :=
  fold_left controller_step evs st.

(** The bottom pane rendered after each event with
    [start={bottomStartedOnce}] and no [resetToken], from its mount with
    [start = false]. *)
Definition bottom_pane (evs : list ControllerEvent) : Doctor.Hooks :=
  Doctor.doctor_renders (false, None)
    (map (fun st => (bottomStartedOnce st, None)) (controller_trace controller_init evs)).

Definition is_top_complete (e : ControllerEvent) : bool :=
  match e with TopComplete => true | RestartKeyEffect _ => false end.

Definition triggers (e : ControllerEvent) : nat :=
  match e with
  | TopComplete => 1
  | RestartKeyEffect (Some _) => 1
  | RestartKeyEffect None => 0
  end.

(** The bridge animation-frame loop of the [React.useEffect] keyed on
    [bridgeRun] and [bridgeDurationMs], for one run with [bridgeRun <> 0].
    The state holds the closure variables [cancelled] and [raf], the
    browser's queue of outstanding frame requests with its id counter
    (ids start at 1), and the [bridgeProg] state. *)
Record RafState := {
  cancelled : bool;
  raf : nat;
  pending : list nat;
  next_id : nat;
  bridgeProg : Q }.

Section Bridge.
Variables t0 bridgeDurationMs : Q.

(** [Math.min(1, (now - t0) / bridgeDurationMs)] *)
Definition progress (now : Q) : Q := Math_min 1 ((now - t0) / bridgeDurationMs).

(** [raf = requestAnimationFrame(tick)] *)
Definition requestAnimationFrame (st : RafState) : RafState :=
  {| cancelled := cancelled st; raf := next_id st;
     pending := pending st ++ [next_id st]; next_id := S (next_id st);
     bridgeProg := bridgeProg st |}.

(** [cancelAnimationFrame(id)] *)
Definition cancelAnimationFrame (id : nat) (st : RafState) : RafState :=
  {| cancelled := cancelled st; raf := raf st;
     pending := filter (fun j => negb (Nat.eqb j id)) (pending st);
     next_id := next_id st; bridgeProg := bridgeProg st |}.

(** [const tick = (now) => { if (cancelled) return; const p = ...;
      setBridgeProg(p); if (p < 1) { raf = requestAnimationFrame(tick); } }] *)
Definition tick (now : Q) (st : RafState) : RafState :=
  if cancelled st then st
  else
    let p := progress now in
    let st' := {| cancelled := cancelled st; raf := raf st; pending := pending st;
                  next_id := next_id st; bridgeProg := p |} in
    if Qlt_bool p 1 then requestAnimationFrame st' else st'.

(** The effect body up to its return: [let cancelled = false; let raf = 0;
    ...; raf = requestAnimationFrame(tick);], from the given progress. *)
Definition effect_start (prog : Q) : RafState :=
  requestAnimationFrame
    {| cancelled := false; raf := 0; pending := []; next_id := 1; bridgeProg := prog |}.

(** The cleanup: [cancelled = true; if (raf) cancelAnimationFrame(raf);] *)
Definition cleanup (st : RafState) : RafState :=
  let st' := {| cancelled := true; raf := raf st; pending := pending st;
                next_id := next_id st; bridgeProg := bridgeProg st |} in
  if Nat.eqb (raf st) 0 then st' else cancelAnimationFrame (raf st) st'.

(** What can happen after the effect has run: the browser runs the oldest
    outstanding frame callback at time [now], or React runs the cleanup. *)
Inductive Event := Frame (now : Q) | Cleanup.

Definition step (st : RafState) (e : Event) : RafState :=
  match e with
  | Frame now =>
      match pending st with
      | [] => st
      | _ :: rest =>
          tick now {| cancelled := cancelled st; raf := raf st; pending := rest;
                      next_id := next_id st; bridgeProg := bridgeProg st |}
      end
  | Cleanup => cleanup st
  end.

Definition run (st : RafState) (evs : list Event) : RafState := fold_left step evs st.

End Bridge.

End Combined.

(** ** Helper lemmas *)

Lemma Nurse_clamp01_cases (n : Q) :
  (n <= 0 /\ Nurse.clamp01 n = 0) \/
  (0 < n /\ 1 <= n /\ Nurse.clamp01 n = 1) \/
  (0 < n /\ n < 1 /\ Nurse.clamp01 n = n).
Proof.
  unfold Nurse.clamp01, Math_min, Math_max.
  destruct (Qle_bool n 0) eqn:E1.
  - apply Qle_bool_iff in E1. left. split; [exact E1|].
    destruct (Qle_bool 1 0) eqn:E2; [discriminate|reflexivity].
  - apply Qle_bool_false in E1. right.
    destruct (Qle_bool 1 n) eqn:E2.
    + apply Qle_bool_iff in E2. left. repeat split; assumption.
    + apply Qle_bool_false in E2. right. repeat split; assumption.
Qed.

Lemma Nurse_clamp01_range (n : Q) : 0 <= Nurse.clamp01 n <= 1.
Proof.
  destruct (Nurse_clamp01_cases n) as [[H E]|[[H1 [H2 E]]|[H1 [H2 E]]]];
    rewrite E; lra.
Qed.

Lemma Nurse_clamp01_mono (m n : Q) : m <= n -> Nurse.clamp01 m <= Nurse.clamp01 n.
Proof.
  intro H.
  destruct (Nurse_clamp01_cases m) as [[Hm Em]|[[Hm1 [Hm2 Em]]|[Hm1 [Hm2 Em]]]];
  destruct (Nurse_clamp01_cases n) as [[Hn En]|[[Hn1 [Hn2 En]]|[Hn1 [Hn2 En]]]];
  rewrite Em, En; lra.
Qed.

Lemma Nurse_clamp01_id (n : Q) : 0 <= n <= 1 -> Nurse.clamp01 n == n.
Proof.
  intro H.
  destruct (Nurse_clamp01_cases n) as [[H1 E]|[[H1 [H2 E]]|[H1 [H2 E]]]];
    rewrite E; lra.
Qed.

Lemma Nurse_clamp01_char (n : Q) : Nurse.clamp01 n == n <-> 0 <= n <= 1.
Proof.
  split; [|apply Nurse_clamp01_id].
  intro H. pose proof (Nurse_clamp01_range n). lra.
Qed.

Lemma Nurse_clamp01_idem (n : Q) :
  Nurse.clamp01 (Nurse.clamp01 n) == Nurse.clamp01 n.
Proof. apply Nurse_clamp01_id, Nurse_clamp01_range. Qed.

Lemma mapRange_cases (v a b : Q) :
  (v <= a /\ Nurse.mapRange v a b = 0) \/
  (a < v /\ b <= v /\ Nurse.mapRange v a b = 1) \/
  (a < v /\ v < b /\ Nurse.mapRange v a b = (v - a) / (b - a)).
Proof.
  unfold Nurse.mapRange, Qge_bool.
  destruct (Qle_bool v a) eqn:E1.
  - apply Qle_bool_iff in E1. left. auto.
  - apply Qle_bool_false in E1. right.
    destruct (Qle_bool b v) eqn:E2.
    + apply Qle_bool_iff in E2. left. auto.
    + apply Qle_bool_false in E2. right. auto.
Qed.

Lemma Qdiv_le_mono (x y c : Q) : 0 < c -> x <= y -> x / c <= y / c.
Proof.
  intros Hc H. unfold Qdiv. apply Qmult_le_compat_r; [exact H|].
  apply Qlt_le_weak, Qinv_lt_0_compat, Hc.
Qed.

Lemma Qdiv_unit_range (x c : Q) : 0 < c -> 0 <= x <= c -> 0 <= x / c <= 1.
Proof.
  intros Hc [H0 H1]. split.
  - apply Qle_shift_div_l; [exact Hc|]. lra.
  - apply Qle_shift_div_r; [exact Hc|]. lra.
Qed.

Lemma mapRange_range (v a b : Q) : a < b -> 0 <= Nurse.mapRange v a b <= 1.
Proof.
  intro Hab.
  destruct (mapRange_cases v a b) as [[H E]|[[H1 [H2 E]]|[H1 [H2 E]]]];
    rewrite E; try lra.
  apply Qdiv_unit_range; lra.
Qed.

Lemma mapRange_mono (v w a b : Q) :
  a < b -> v <= w -> Nurse.mapRange v a b <= Nurse.mapRange w a b.
Proof.
  intros Hab Hvw.
  pose proof (mapRange_range v a b Hab). pose proof (mapRange_range w a b Hab).
  destruct (mapRange_cases v a b) as [[Hv Ev]|[[Hv1 [Hv2 Ev]]|[Hv1 [Hv2 Ev]]]];
  destruct (mapRange_cases w a b) as [[Hw Ew]|[[Hw1 [Hw2 Ew]]|[Hw1 [Hw2 Ew]]]];
  rewrite ?Ev, ?Ew in *; try lra.
  apply Qdiv_le_mono; lra.
Qed.

Lemma mapRange_low (v a b : Q) : v <= a -> Nurse.mapRange v a b == 0.
Proof.
  intro H.
  destruct (mapRange_cases v a b) as [[H1 E]|[[H1 [H2 E]]|[H1 [H2 E]]]];
    rewrite E; lra.
Qed.

Lemma mapRange_high (v a b : Q) : a < b -> b <= v -> Nurse.mapRange v a b == 1.
Proof.
  intros Hab H.
  destruct (mapRange_cases v a b) as [[H1 E]|[[H1 [H2 E]]|[H1 [H2 E]]]];
    rewrite E; lra.
Qed.

(** A timeline slice [clamp01(mapRange(step, a, b))] with [a < b]. *)
Lemma slice_spec (a b : Q) : a < b ->
  forall step,
    0 <= Nurse.clamp01 (Nurse.mapRange step a b) <= 1 /\
    (forall step', step <= step' ->
       Nurse.clamp01 (Nurse.mapRange step a b) <= Nurse.clamp01 (Nurse.mapRange step' a b)) /\
    (step <= a -> Nurse.clamp01 (Nurse.mapRange step a b) == 0) /\
    (b <= step -> Nurse.clamp01 (Nurse.mapRange step a b) == 1).
Proof.
  intros Hab step.
  pose proof (mapRange_range step a b Hab) as Hr.
  split; [apply Nurse_clamp01_range|]. split; [|split].
  - intros step' H. apply Nurse_clamp01_mono, mapRange_mono; assumption.
  - intro H. rewrite (Nurse_clamp01_id _ Hr). apply mapRange_low, H.
  - intro H. rewrite (Nurse_clamp01_id _ Hr). apply mapRange_high; assumption.
Qed.

(** ** Claims *)

(** C9: [clamp01] returns a value in [0,1] for every input, is the identity
    exactly on the inputs already in [0,1], and is idempotent; the copy in
    NurseAssessmentAnimation and the copy in CombinedAnimation both. *)
Theorem clamp01_range_identity_idempotent (n : Q) :
  (0 <= Nurse.clamp01 n <= 1 /\
   (Nurse.clamp01 n == n <-> 0 <= n <= 1) /\
   Nurse.clamp01 (Nurse.clamp01 n) == Nurse.clamp01 n) /\
  (0 <= Combined.clamp01 n <= 1 /\
   (Combined.clamp01 n == n <-> 0 <= n <= 1) /\
   Combined.clamp01 (Combined.clamp01 n) == Combined.clamp01 n).
Proof.
  assert (P : 0 <= Nurse.clamp01 n <= 1 /\
              (Nurse.clamp01 n == n <-> 0 <= n <= 1) /\
              Nurse.clamp01 (Nurse.clamp01 n) == Nurse.clamp01 n).
  { split; [apply Nurse_clamp01_range|].
    split; [apply Nurse_clamp01_char|apply Nurse_clamp01_idem]. }
  split; exact P.
Qed.

(** C8: [mapRange] never divides by zero: the version with a checked
    division always succeeds with the value of [mapRange], and the division
    branch is reached only when [a < v < b], so [b - a > 0].  For [a < b] the
    result lies in [0,1], is nondecreasing in [v], is [0] for [v <= a] and
    [1] for [v >= b]. *)
Theorem mapRange_no_division_by_zero (v a b : Q) :
  Nurse.mapRange_checked v a b = Some (Nurse.mapRange v a b) /\
  (Qle_bool v a = false -> Qge_bool v b = false -> a < v < b /\ 0 < b - a) /\
  (a < b ->
     0 <= Nurse.mapRange v a b <= 1 /\
     (forall w, v <= w -> Nurse.mapRange v a b <= Nurse.mapRange w a b) /\
     (v <= a -> Nurse.mapRange v a b == 0) /\
     (b <= v -> Nurse.mapRange v a b == 1)).
Proof.
  split; [|split].
  - unfold Nurse.mapRange_checked, Nurse.mapRange, Nurse.checked_div, Qge_bool.
    destruct (Qle_bool v a) eqn:E1; [reflexivity|].
    destruct (Qle_bool b v) eqn:E2; [reflexivity|].
    apply Qle_bool_false in E1. apply Qle_bool_false in E2.
    destruct (Qeq_bool (b - a) 0) eqn:E3; [|reflexivity].
    apply Qeq_bool_iff in E3. lra.
  - unfold Qge_bool. intros E1 E2.
    apply Qle_bool_false in E1. apply Qle_bool_false in E2. lra.
  - intro Hab. split; [apply mapRange_range, Hab|]. split; [|split].
    + intros w H. apply mapRange_mono; assumption.
    + apply mapRange_low.
    + apply mapRange_high, Hab.
Qed.

(** C2: the timeline slices [writeProg], [arrowProg] and [fileProg] lie in
    [0,1] for every step, are nondecreasing in step, are [0] at or below the
    start of their window and [1] from its end onward. *)
Theorem timeline_slices_spec (step : Q) :
  (0 <= Nurse.writeProg step <= 1 /\
   (forall step', step <= step' -> Nurse.writeProg step <= Nurse.writeProg step') /\
   (step <= 0 -> Nurse.writeProg step == 0) /\
   (35 # 100 <= step -> Nurse.writeProg step == 1)) /\
  (0 <= Nurse.arrowProg step <= 1 /\
   (forall step', step <= step' -> Nurse.arrowProg step <= Nurse.arrowProg step') /\
   (step <= 35 # 100 -> Nurse.arrowProg step == 0) /\
   (55 # 100 <= step -> Nurse.arrowProg step == 1)) /\
  (0 <= Nurse.fileProg step <= 1 /\
   (forall step', step <= step' -> Nurse.fileProg step <= Nurse.fileProg step') /\
   (step <= 35 # 100 -> Nurse.fileProg step == 0) /\
   (80 # 100 <= step -> Nurse.fileProg step == 1)).
Proof.
  unfold Nurse.writeProg, Nurse.arrowProg, Nurse.fileProg.
  split; [|split]; apply slice_spec; reflexivity.
Qed.

(** C3: the monitor cards appear in the order Vitals ([step >= 0.6]), Pain
    Assessment ([step >= 0.75]), Subjective Notes ([step >= 0.9]): whenever
    Subjective Notes is visible so is Pain Assessment, and whenever Pain
    Assessment is visible so is Vitals. *)
Theorem monitor_cards_in_order (step : Q) :
  (Nurse.showVitals step = true <-> 6 # 10 <= step) /\
  (Nurse.showPain step = true <-> 75 # 100 <= step) /\
  (Nurse.showNotes step = true <-> 9 # 10 <= step) /\
  (Nurse.showNotes step = true -> Nurse.showPain step = true) /\
  (Nurse.showPain step = true -> Nurse.showVitals step = true).
Proof.
  unfold Nurse.showVitals, Nurse.showPain, Nurse.showNotes, Qge_bool.
  rewrite !Qle_bool_iff.
  repeat split; intro H; lra.
Qed.

(** C10: [cubicBezierPoint] interpolates its end points: at [t = 0] it
    returns [(x1, y1)] and at [t = 1] it returns [(x2, y2)]. *)
Theorem cubicBezierPoint_endpoints (x1 y1 cx1 cy1 cx2 cy2 x2 y2 : Q) :
  fst (Combined.cubicBezierPoint 0 x1 y1 cx1 cy1 cx2 cy2 x2 y2) == x1 /\
  snd (Combined.cubicBezierPoint 0 x1 y1 cx1 cy1 cx2 cy2 x2 y2) == y1 /\
  fst (Combined.cubicBezierPoint 1 x1 y1 cx1 cy1 cx2 cy2 x2 y2) == x2 /\
  snd (Combined.cubicBezierPoint 1 x1 y1 cx1 cy1 cx2 cy2 x2 y2) == y2.
Proof.
  unfold Combined.cubicBezierPoint; simpl.
  repeat split; ring.
Qed.

(** Small executions of the models. *)
Example stepUpdater_example : Nurse.stepUpdater 3000 1 (1 # 4) == 3 # 4.
Proof. reflexivity. Qed.

Example stepUpdater_caps : Nurse.stepUpdater 6000 2 (1 # 2) = 1.
Proof. reflexivity. Qed.

Example FileTransfer_empty_url : Nurse.FileTransfer (1 # 2) (Some EmptyString) = None.
Proof. reflexivity. Qed.

Example FileTransfer_midway :
  match Nurse.FileTransfer (1 # 2) (Some "f.png") with
  | Some p => p == 1 # 2
  | None => False
  end.
Proof. reflexivity. Qed.

Lemma stepUpdater_spec (dt speed s : Q) :
  0 <= dt -> 0 <= speed -> 0 <= s <= 1 ->
  0 <= Nurse.stepUpdater dt speed s <= 1 /\ s <= Nurse.stepUpdater dt speed s.
Proof.
  intros Hdt Hsp Hs. unfold Nurse.stepUpdater, Qge_bool.
  assert (Hx : 0 <= dt * speed / Nurse.dur).
  { apply Qle_shift_div_l; [reflexivity|].
    rewrite Qmult_0_l. apply Qmult_le_0_compat; assumption. }
  generalize dependent (dt * speed / Nurse.dur). intros x Hx.
  destruct (Qle_bool 1 (s + x)) eqn:E.
  - lra.
  - apply Qle_bool_false in E. lra.
Qed.

Lemma stepUpdater_at_one (dt speed s : Q) :
  0 <= dt -> 0 <= speed -> s == 1 -> Nurse.stepUpdater dt speed s = 1.
Proof.
  intros Hdt Hsp Hs. unfold Nurse.stepUpdater, Qge_bool.
  assert (Hx : 0 <= dt * speed / Nurse.dur).
  { apply Qle_shift_div_l; [reflexivity|].
    rewrite Qmult_0_l. apply Qmult_le_0_compat; assumption. }
  generalize dependent (dt * speed / Nurse.dur). intros x Hx.
  destruct (Qle_bool 1 (s + x)) eqn:E; [reflexivity|].
  apply Qle_bool_false in E. lra.
Qed.

Lemma run_ticks_stays_one (isPlaying : bool) (speed : Q) (frames : list Q) :
  0 <= speed ->
  forall st, Nurse.step st == 1 -> Nurse.chronological (Nurse.last st) frames = true ->
  Nurse.step (Nurse.run_ticks isPlaying speed st frames) == 1.
Proof.
  intro Hsp. induction frames as [|now rest IH]; intros st Hs Hc; simpl; [exact Hs|].
  simpl in Hc. apply andb_true_iff in Hc as [Hle Hc]. apply Qle_bool_iff in Hle.
  apply IH; [|exact Hc].
  unfold Nurse.tick; simpl. destruct isPlaying; [|exact Hs].
  rewrite stepUpdater_at_one; [reflexivity|lra|exact Hsp|exact Hs].
Qed.

(** C1: one tick of the animation-frame loop of NurseAssessmentAnimation
    with [dt = now - last >= 0] and [speed >= 0] keeps [step] in [0,1] and
    does not decrease it; once [step] is [1] it stays [1] on every later tick
    of a chronological sequence of frames. *)
Theorem nurse_tick_bounded_monotone (isPlaying : bool) (speed : Q)
    (st : Nurse.TickState) (now : Q) (frames : list Q)
    (Hspeed : 0 <= speed) (Hdt : 0 <= now - Nurse.last st)
    (Hstep : 0 <= Nurse.step st <= 1) :
  0 <= Nurse.step (Nurse.tick isPlaying speed st now) <= 1 /\
  Nurse.step st <= Nurse.step (Nurse.tick isPlaying speed st now) /\
  (Nurse.step st == 1 ->
   Nurse.chronological (Nurse.last st) (now :: frames) = true ->
   Nurse.step (Nurse.run_ticks isPlaying speed st (now :: frames)) == 1).
Proof.
  split; [|split].
  - unfold Nurse.tick; simpl. destruct isPlaying; [|exact Hstep].
    apply stepUpdater_spec; assumption.
  - unfold Nurse.tick; simpl. destruct isPlaying; [|apply Qle_refl].
    apply stepUpdater_spec; assumption.
  - intros Hone Hc. apply run_ticks_stays_one; assumption.
Qed.

(** Witness of C1 at [speed = 1], a frame 100 ms after [last = 0], [step = 0.5]. *)
Lemma nurse_tick_bounded_monotone_witness :
  0 <= Nurse.step (Nurse.tick true 1 {| Nurse.step := 1 # 2; Nurse.last := 0 |} 100) <= 1.
Proof.
  apply (nurse_tick_bounded_monotone true 1 {| Nurse.step := 1 # 2; Nurse.last := 0 |}
           100 []); repeat split; apply Qle_bool_imp_le; reflexivity.
Defined.

Lemma stepDelays_nth (steps : list Doctor.Step) (staggerMs : Q) (i : nat) :
  (i < List.length steps)%nat ->
  nth i (Doctor.stepDelays steps staggerMs) 0 =
  Doctor.perItemDelaySec staggerMs * inject_Z (Z.of_nat i).
Proof.
  intro Hi. unfold Doctor.stepDelays.
  set (f := fun k : nat => Doctor.perItemDelaySec staggerMs * inject_Z (Z.of_nat k)).
  change (nth i (map f (seq 0 (List.length steps))) 0 = f i).
  rewrite nth_indep with (d' := f 0%nat).
  - rewrite map_nth, seq_nth by exact Hi. reflexivity.
  - rewrite length_map, length_seq. exact Hi.
Qed.

Lemma perItemDelaySec_nonneg (staggerMs : Q) :
  0 <= staggerMs -> 0 <= Doctor.perItemDelaySec staggerMs.
Proof.
  intro H. unfold Doctor.perItemDelaySec.
  apply Qle_shift_div_l; [reflexivity|]. lra.
Qed.

Lemma perItemDelaySec_pos (staggerMs : Q) :
  0 < staggerMs -> 0 < Doctor.perItemDelaySec staggerMs.
Proof.
  intro H. unfold Doctor.perItemDelaySec.
  apply Qlt_shift_div_l; [reflexivity|]. lra.
Qed.

Lemma inject_nat_le (i j : nat) : (i <= j)%nat ->
  inject_Z (Z.of_nat i) <= inject_Z (Z.of_nat j).
Proof. intro H. rewrite <- Zle_Qle. lia. Qed.

Lemma inject_nat_lt (i j : nat) : (i < j)%nat ->
  inject_Z (Z.of_nat i) < inject_Z (Z.of_nat j).
Proof. intro H. rewrite <- Zlt_Qlt. lia. Qed.

(** C4: in DoctorProcessAnimation, for [staggerMs >= 0] and every index
    [i < steps.length], the [i]-th step's delay is [(staggerMs / 2000) * i]
    seconds, strictly increasing in [i] when [staggerMs > 0], and the
    file-handoff delay [steps.length * (staggerMs / 2000) + 0.2] is strictly
    greater than it. *)
Theorem doctor_delays_ordered (steps : list Doctor.Step) (staggerMs : Q) (i : nat)
    (Hstagger : 0 <= staggerMs) (Hi : (i < List.length steps)%nat) :
  nth i (Doctor.stepDelays steps staggerMs) 0 == staggerMs / 2000 * inject_Z (Z.of_nat i) /\
  (0 < staggerMs -> forall j, (i < j < List.length steps)%nat ->
     nth i (Doctor.stepDelays steps staggerMs) 0 <
     nth j (Doctor.stepDelays steps staggerMs) 0) /\
  nth i (Doctor.stepDelays steps staggerMs) 0 < Doctor.handoffDelaySec steps staggerMs.
Proof.
  rewrite (stepDelays_nth _ _ _ Hi). split; [|split].
  - reflexivity.
  - intros Hpos j [Hij Hj]. rewrite (stepDelays_nth _ _ _ Hj).
    rewrite !(Qmult_comm (Doctor.perItemDelaySec staggerMs)).
    apply Qmult_lt_r; [apply perItemDelaySec_pos, Hpos|].
    apply inject_nat_lt, Hij.
  - unfold Doctor.handoffDelaySec.
    assert (H : Doctor.perItemDelaySec staggerMs * inject_Z (Z.of_nat i) <=
                inject_Z (Z.of_nat (List.length steps)) * Doctor.perItemDelaySec staggerMs).
    { rewrite Qmult_comm. apply Qmult_le_compat_r.
      - apply inject_nat_le. lia.
      - apply perItemDelaySec_nonneg, Hstagger. }
    lra.
Qed.

(** Witness of C4 with the default five steps, [staggerMs = 750] and [i = 4]. *)
Lemma doctor_delays_ordered_witness :
  nth 4 (Doctor.stepDelays Doctor.default_steps 750) 0 <
  Doctor.handoffDelaySec Doctor.default_steps 750.
Proof.
  apply (doctor_delays_ordered Doctor.default_steps 750 4);
    [apply Qle_bool_imp_le; reflexivity | simpl; lia].
Defined.

(** C5 (the claim as written): [FileTransfer] returns [null] exactly when
    [fileIconUrl] is undefined or [progress <= 0] or [progress > 1].  It does
    not hold: the empty string is falsy, so a defined but empty
    [fileIconUrl] also renders nothing. *)
Lemma FileTransfer_null_iff_counterexample :
  ~ (forall (progress : Q) (fileIconUrl : option string),
       Nurse.FileTransfer progress fileIconUrl = None <->
       (fileIconUrl = None \/ progress <= 0 \/ 1 < progress)).
Proof.
  intro H. destruct (H (1 # 2) (Some EmptyString)) as [H1 _].
  destruct (H1 eq_refl) as [E|[E|E]].
  - discriminate E.
  - apply Qle_bool_iff in E. discriminate E.
  - apply Qlt_bool_iff in E. discriminate E.
Qed.

(** C5 (amended): [FileTransfer] returns [null] exactly when [fileIconUrl]
    is undefined or the empty string, or [progress <= 0], or [progress > 1];
    for every non-empty [fileIconUrl] and [0 < progress <= 1] it renders the
    icon at the eased arc parameter [easeInOutQuad(clamp01(progress))]. *)
Theorem FileTransfer_null_iff_falsy_or_out_of_range (progress : Q)
    (fileIconUrl : option string) :
  (Nurse.FileTransfer progress fileIconUrl = None <->
   (fileIconUrl = None \/ fileIconUrl = Some EmptyString \/
    progress <= 0 \/ 1 < progress)) /\
  (forall url, fileIconUrl = Some url -> url <> EmptyString ->
   0 < progress <= 1 ->
   Nurse.FileTransfer progress fileIconUrl =
   Some (Nurse.easeInOutQuad (Nurse.clamp01 progress))).
Proof.
  unfold Nurse.FileTransfer.
  assert (Hu : negb (Nurse.truthy fileIconUrl) = true <->
               fileIconUrl = None \/ fileIconUrl = Some EmptyString).
  { destruct fileIconUrl as [u|]; simpl.
    - rewrite negb_involutive, String.eqb_eq. split.
      + intro E. subst u. right. reflexivity.
      + intros [E|E]; [discriminate E|injection E; auto].
    - split; auto. }
  split.
  - destruct (negb (Nurse.truthy fileIconUrl) || Qle_bool progress 0 ||
              Qlt_bool 1 progress) eqn:E.
    + split; [intros _|reflexivity].
      apply orb_true_iff in E as [E|E]; [apply orb_true_iff in E as [E|E]|].
      * apply Hu in E. destruct E; auto.
      * apply Qle_bool_iff in E. auto.
      * apply Qlt_bool_iff in E. auto.
    + split; [discriminate|]. intros H.
      apply orb_false_iff in E as [E E3]. apply orb_false_iff in E as [E1 E2].
      apply Qle_bool_false in E2.
      assert (E3' : ~ 1 < progress) by (rewrite <- Qlt_bool_iff; congruence).
      destruct H as [H|[H|[H|H]]].
      * assert (negb (Nurse.truthy fileIconUrl) = true) by (apply Hu; auto). congruence.
      * assert (negb (Nurse.truthy fileIconUrl) = true) by (apply Hu; auto). congruence.
      * lra.
      * contradiction.
  - intros url Eu Hne [Hp0 Hp1]. subst fileIconUrl. simpl.
    destruct (String.eqb url EmptyString) eqn:Es.
    + apply String.eqb_eq in Es. contradiction.
    + simpl.
      destruct (Qle_bool progress 0) eqn:E2.
      { apply Qle_bool_iff in E2. lra. }
      destruct (Qlt_bool 1 progress) eqn:E3.
      { apply Qlt_bool_iff in E3. lra. }
      reflexivity.
Qed.

(** C6: every omitted optional prop takes its built-in fallback: in
    DoctorProcessAnimation [steps] is the five steps Lab Order, Prescription
    Order, Imaging Order, Follow up, Referral, [start] is [false],
    [staggerMs] is [750], [disableFinalHandoff] is [false] and
    [clinicalNoteText] is ["Clinical Note"]; in NurseAssessmentAnimation an
    omitted [nurseIconUrl] selects [SvgNurseCap]. *)
Theorem omitted_props_take_defaults (p : Doctor.DoctorProcessAnimationProps) :
  (Doctor.steps p = None ->
     map Doctor.title (Doctor.r_steps (Doctor.resolve p)) =
     ["Lab Order"; "Prescription Order"; "Imaging Order"; "Follow up"; "Referral"]) /\
  (Doctor.start p = None -> Doctor.r_start (Doctor.resolve p) = false) /\
  (Doctor.staggerMs p = None -> Doctor.r_staggerMs (Doctor.resolve p) = 750) /\
  (Doctor.disableFinalHandoff p = None ->
     Doctor.r_disableFinalHandoff (Doctor.resolve p) = false) /\
  (Doctor.clinicalNoteText p = None ->
     Doctor.r_clinicalNoteText (Doctor.resolve p) = "Clinical Note") /\
  Nurse.NurseIcon None = Nurse.SvgNurseCap.
Proof.
  unfold Doctor.resolve; simpl.
  repeat split; intro E; rewrite E; reflexivity.
Qed.

Section BridgeProofs.
Variables t0 bridgeDurationMs : Q.

(** Invariant of the bridge loop: at most the frame whose id is held in
    [raf] is outstanding, ids are never [0], and nothing is outstanding
    once the effect is cancelled. *)
Definition bridge_inv (st : Combined.RafState) : Prop :=
  (Combined.pending st = [] \/
   (Combined.pending st = [Combined.raf st] /\ Combined.raf st <> 0%nat)) /\
  Combined.next_id st <> 0%nat /\
  (Combined.cancelled st = true -> Combined.pending st = []).

Lemma bridge_inv_start (prog : Q) : bridge_inv (Combined.effect_start prog).
Proof.
  unfold bridge_inv; simpl. split; [right; split; [reflexivity|discriminate]|].
  split; [discriminate|discriminate].
Qed.

Lemma bridge_inv_step (st : Combined.RafState) (e : Combined.Event) :
  bridge_inv st -> bridge_inv (Combined.step t0 bridgeDurationMs st e).
Proof.
  intros [Hp [Hn Hc]]. destruct e as [now|]; simpl.
  - destruct (Combined.pending st) as [|id rest] eqn:Ep.
    + unfold bridge_inv. rewrite Ep. auto.
    + unfold Combined.tick; simpl.
      assert (Er : rest = []).
      { destruct Hp as [H|[H _]]; [discriminate H|injection H; auto]. }
      subst rest.
      destruct (Combined.cancelled st) eqn:Ec.
      * discriminate (Hc eq_refl).
      * destruct (Qlt_bool (Combined.progress t0 bridgeDurationMs now) 1).
        -- unfold bridge_inv; simpl.
           split; [right; split; [reflexivity|exact Hn]|].
           split; [discriminate|discriminate].
        -- unfold bridge_inv; simpl. split; [left; reflexivity|].
           split; [exact Hn|discriminate].
  - unfold Combined.cleanup.
    destruct (Nat.eqb (Combined.raf st) 0) eqn:Ez.
    + apply Nat.eqb_eq in Ez.
      assert (E : Combined.pending st = []).
      { destruct Hp as [H|[_ H]]; [exact H|contradiction]. }
      unfold bridge_inv; simpl. rewrite E. auto.
    + unfold bridge_inv; simpl.
      assert (E : filter (fun j => negb (Nat.eqb j (Combined.raf st)))
                         (Combined.pending st) = []).
      { destruct Hp as [H|[H _]]; rewrite H; [reflexivity|].
        simpl. rewrite Nat.eqb_refl. reflexivity. }
      rewrite E. auto.
Qed.

Lemma bridge_inv_run (evs : list Combined.Event) :
  forall st, bridge_inv st -> bridge_inv (Combined.run t0 bridgeDurationMs st evs).
Proof.
  induction evs as [|e evs IH]; intros st H; simpl; [exact H|].
  apply IH, bridge_inv_step, H.
Qed.

(** After the cleanup nothing is outstanding, whatever happens next. *)
Lemma bridge_cancelled_quiet (evs : list Combined.Event) :
  forall st, Combined.cancelled st = true -> Combined.pending st = [] ->
  Combined.cancelled (Combined.run t0 bridgeDurationMs st evs) = true /\
  Combined.pending (Combined.run t0 bridgeDurationMs st evs) = [].
Proof.
  induction evs as [|e evs IH]; intros st Hc Hp; simpl; [auto|].
  apply IH.
  - destruct e; simpl; [rewrite Hp; exact Hc|].
    unfold Combined.cleanup. destruct (Nat.eqb _ 0); reflexivity.
  - destruct e; simpl; [rewrite Hp; exact Hp|].
    unfold Combined.cleanup. destruct (Nat.eqb _ 0); simpl; rewrite Hp; reflexivity.
Qed.

Lemma bridge_progress_range (now : Q) :
  0 < bridgeDurationMs -> t0 <= now ->
  0 <= Combined.progress t0 bridgeDurationMs now <= 1.
Proof.
  intros HD Hnow. unfold Combined.progress, Math_min.
  assert (H : 0 <= (now - t0) / bridgeDurationMs).
  { apply Qle_shift_div_l; [exact HD|]. lra. }
  destruct (Qle_bool 1 ((now - t0) / bridgeDurationMs)) eqn:E.
  - lra.
  - apply Qle_bool_false in E. lra.
Qed.

Lemma bridge_progress_mono (n1 n2 : Q) :
  0 < bridgeDurationMs -> n1 <= n2 ->
  Combined.progress t0 bridgeDurationMs n1 <= Combined.progress t0 bridgeDurationMs n2.
Proof.
  intros HD H. unfold Combined.progress, Math_min.
  assert (Hm : (n1 - t0) / bridgeDurationMs <= (n2 - t0) / bridgeDurationMs).
  { apply Qdiv_le_mono; [exact HD|]. lra. }
  generalize dependent ((n1 - t0) / bridgeDurationMs).
  generalize dependent ((n2 - t0) / bridgeDurationMs).
  intros x2 x1 Hm.
  destruct (Qle_bool 1 x1) eqn:E1; destruct (Qle_bool 1 x2) eqn:E2;
    rewrite ?Qle_bool_iff in *; try apply Qle_bool_false in E1;
    try apply Qle_bool_false in E2; lra.
Qed.

End BridgeProofs.

(** C7: in CombinedAnimation's bridge loop, for [bridgeDurationMs > 0] the
    progress [min(1, (now - t0) / bridgeDurationMs)] lies in [0,1] for every
    frame time [now >= t0] and is nondecreasing in [now].  In every state the
    effect can reach, at most one frame request is outstanding (the one held
    in [raf]); a frame that runs the live loop stores the progress and
    requests a further frame exactly when the progress is below [1]; the
    cleanup cancels the outstanding request, and no frame is requested after
    it. *)
Theorem bridge_loop_bounded_single_frame (t0 bridgeDurationMs prog : Q)
    (HD : 0 < bridgeDurationMs) :
  (forall now, t0 <= now -> 0 <= Combined.progress t0 bridgeDurationMs now <= 1) /\
  (forall n1 n2, n1 <= n2 ->
     Combined.progress t0 bridgeDurationMs n1 <= Combined.progress t0 bridgeDurationMs n2) /\
  (forall evs,
     let st := Combined.run t0 bridgeDurationMs (Combined.effect_start prog) evs in
     (List.length (Combined.pending st) <= 1)%nat /\
     (Combined.pending st = [] \/ Combined.pending st = [Combined.raf st]) /\
     (forall now, Combined.cancelled st = false -> Combined.pending st <> [] ->
        Combined.bridgeProg (Combined.step t0 bridgeDurationMs st (Combined.Frame now)) =
        Combined.progress t0 bridgeDurationMs now /\
        (Combined.pending (Combined.step t0 bridgeDurationMs st (Combined.Frame now)) <> [] <->
         Combined.progress t0 bridgeDurationMs now < 1)) /\
     (forall evs',
        Combined.pending
          (Combined.run t0 bridgeDurationMs
             (Combined.step t0 bridgeDurationMs st Combined.Cleanup) evs') = [])).
Proof.
  split; [intros now H; apply bridge_progress_range; assumption|].
  split; [intros n1 n2 H; apply bridge_progress_mono; assumption|].
  intros evs st.
  assert (Hinv : bridge_inv st) by apply bridge_inv_run, bridge_inv_start.
  destruct Hinv as [Hp [Hn Hc]].
  split; [destruct Hp as [H|[H _]]; rewrite H; simpl; lia|].
  split; [destruct Hp as [H|[H _]]; auto|].
  split.
  - intros now Hcan Hne. simpl.
    destruct (Combined.pending st) as [|id rest] eqn:Ep; [contradiction|].
    assert (Er : rest = []).
    { destruct Hp as [H|[H _]]; [discriminate H|injection H; auto]. }
    subst rest.
    unfold Combined.tick; simpl. rewrite Hcan.
    destruct (Qlt_bool (Combined.progress t0 bridgeDurationMs now) 1) eqn:El.
    + apply Qlt_bool_iff in El. simpl. split; [reflexivity|].
      split; [intros _; exact El|intros _ H; discriminate H].
    + simpl. split; [reflexivity|].
      split; [intro H; contradiction H; reflexivity|].
      intro H. apply Qlt_bool_iff in H. congruence.
  - intro evs'.
    assert (Hcl : bridge_inv (Combined.step t0 bridgeDurationMs st Combined.Cleanup)).
    { apply bridge_inv_step. split; [exact Hp|split; assumption]. }
    apply (bridge_cancelled_quiet t0 bridgeDurationMs evs').
    + simpl. unfold Combined.cleanup. destruct (Nat.eqb _ 0); reflexivity.
    + destruct Hcl as [_ [_ Hc']]. apply Hc'.
      simpl. unfold Combined.cleanup. destruct (Nat.eqb _ 0); reflexivity.
Qed.

(** Witness of C7 with [t0 = 0] and the 1200 ms default duration, a frame at
    600 ms. *)
Lemma bridge_loop_bounded_single_frame_witness :
  0 <= Combined.progress 0 1200 600 <= 1.
Proof.
  refine (proj1 (bridge_loop_bounded_single_frame 0 1200 0 _) 600 _);
    [reflexivity | apply Qle_bool_imp_le; reflexivity].
Defined.

(** ** Further properties of the components *)

Lemma Qlt_bool_false (a b : Q) : Qlt_bool a b = false -> b <= a.
Proof.
  unfold Qlt_bool. rewrite negb_false_iff. apply Qle_bool_iff.
Qed.

Lemma Qpower_two (x : Q) : Qpower x 2 == x * x.
Proof. reflexivity. Qed.

Lemma Qpower_three (x : Q) : Qpower x 3 == x * x * x.
Proof. simpl. ring. Qed.

Lemma Qdiv_two (x : Q) : x / 2 = x * (1 # 2).
Proof. reflexivity. Qed.

Lemma pow_mono (a b : Q) : 0 <= a <= b -> 0 <= a * a <= b * b /\ 0 <= a * a * a <= b * b * b.
Proof.
  intros [Ha Hab].
  assert (H2 : a * a <= b * b) by (apply Qmult_le_compat_nonneg; lra).
  assert (H2' : 0 <= a * a) by (apply Qmult_le_0_compat; lra).
  split; [lra|]. split.
  - apply Qmult_le_0_compat; lra.
  - apply Qmult_le_compat_nonneg; lra.
Qed.

(** Splits on the [t < 0.5] test of an easing function. *)
Ltac ease_split t :=
  let E := fresh "E" in
  destruct (Qlt_bool t (1 # 2)) eqn:E;
  [apply Qlt_bool_iff in E | apply Qlt_bool_false in E].

(** The bounds of the powers used by the easing functions on [0,1]. *)
Ltac ease_bounds t :=
  pose proof (pow_mono 0 t); pose proof (pow_mono t (1 # 2));
  pose proof (pow_mono 0 (-2 * t + 2)); pose proof (pow_mono (-2 * t + 2) 1).

(** Keeps the instances of [pow_mono] whose premise holds. *)
Ltac use_bounds :=
  repeat match goal with H : _ -> _ /\ _ |- _ =>
    let A := fresh in let B := fresh in
    first [destruct H as [A B]; [lra|] | clear H] end.

Lemma easeInOutQuad_range (t : Q) : 0 <= t <= 1 -> 0 <= Nurse.easeInOutQuad t <= 1.
Proof.
  intros [H0 H1]. unfold Nurse.easeInOutQuad. ease_bounds t.
  ease_split t; rewrite ?Qpower_two, ?Qdiv_two; use_bounds; split; lra.
Qed.

Lemma easeInOutQuad_mono (t1 t2 : Q) : 0 <= t1 -> t1 <= t2 -> t2 <= 1 ->
  Nurse.easeInOutQuad t1 <= Nurse.easeInOutQuad t2.
Proof.
  intros H0 H12 H2. unfold Nurse.easeInOutQuad. ease_bounds t1. ease_bounds t2.
  pose proof (pow_mono t1 t2). pose proof (pow_mono (-2 * t2 + 2) (-2 * t1 + 2)).
  ease_split t1; ease_split t2; rewrite ?Qpower_two, ?Qdiv_two; use_bounds; lra.
Qed.

Lemma easeInOutQuad_sym (t : Q) :
  Nurse.easeInOutQuad (1 - t) == 1 - Nurse.easeInOutQuad t.
Proof.
  unfold Nurse.easeInOutQuad.
  ease_split (1 - t); ease_split t; rewrite ?Qpower_two, ?Qdiv_two.
  - lra.
  - ring.
  - ring.
  - assert (Ht : t == 1 # 2) by lra. rewrite Ht. reflexivity.
Qed.

Lemma easeInOutCubic_range (t : Q) : 0 <= t <= 1 -> 0 <= Combined.easeInOutCubic t <= 1.
Proof.
  intros [H0 H1]. unfold Combined.easeInOutCubic. ease_bounds t.
  ease_split t; rewrite ?Qpower_three, ?Qdiv_two; use_bounds; split; lra.
Qed.

Lemma easeInOutCubic_mono (t1 t2 : Q) : 0 <= t1 -> t1 <= t2 -> t2 <= 1 ->
  Combined.easeInOutCubic t1 <= Combined.easeInOutCubic t2.
Proof.
  intros H0 H12 H2. unfold Combined.easeInOutCubic. ease_bounds t1. ease_bounds t2.
  pose proof (pow_mono t1 t2). pose proof (pow_mono (-2 * t2 + 2) (-2 * t1 + 2)).
  ease_split t1; ease_split t2; rewrite ?Qpower_three, ?Qdiv_two; use_bounds; lra.
Qed.

Lemma easeInOutCubic_sym (t : Q) :
  Combined.easeInOutCubic (1 - t) == 1 - Combined.easeInOutCubic t.
Proof.
  unfold Combined.easeInOutCubic.
  ease_split (1 - t); ease_split t; rewrite ?Qpower_three, ?Qdiv_two.
  - lra.
  - ring.
  - ring.
  - assert (Ht : t == 1 # 2) by lra. rewrite Ht. reflexivity.
Qed.

(** The quadratic ease of the file packet maps [0,1] into [0,1], fixes [0]
    and [1], is point-symmetric about [(0.5, 0.5)] and nondecreasing on
    [0,1]. *)
Theorem easeInOutQuad_shape :
  (forall t, 0 <= t <= 1 -> 0 <= Nurse.easeInOutQuad t <= 1) /\
  Nurse.easeInOutQuad 0 == 0 /\ Nurse.easeInOutQuad 1 == 1 /\
  (forall t, Nurse.easeInOutQuad (1 - t) == 1 - Nurse.easeInOutQuad t) /\
  (forall t1 t2, 0 <= t1 -> t1 <= t2 -> t2 <= 1 ->
     Nurse.easeInOutQuad t1 <= Nurse.easeInOutQuad t2).
Proof.
  split; [exact easeInOutQuad_range|].
  split; [reflexivity|]. split; [reflexivity|].
  split; [exact easeInOutQuad_sym|exact easeInOutQuad_mono].
Qed.

(** The cubic ease of the bridge maps [0,1] into [0,1], fixes [0] and
    [1], is point-symmetric about [(0.5, 0.5)] and nondecreasing on [0,1]. *)
Theorem easeInOutCubic_shape :
  (forall t, 0 <= t <= 1 -> 0 <= Combined.easeInOutCubic t <= 1) /\
  Combined.easeInOutCubic 0 == 0 /\ Combined.easeInOutCubic 1 == 1 /\
  (forall t, Combined.easeInOutCubic (1 - t) == 1 - Combined.easeInOutCubic t) /\
  (forall t1 t2, 0 <= t1 -> t1 <= t2 -> t2 <= 1 ->
     Combined.easeInOutCubic t1 <= Combined.easeInOutCubic t2).
Proof.
  split; [exact easeInOutCubic_range|].
  split; [reflexivity|]. split; [reflexivity|].
  split; [exact easeInOutCubic_sym|exact easeInOutCubic_mono].
Qed.

Lemma scribblePct_clamp (progress : Q) (i : nat) :
  Nurse.scribblePct progress i =
  Nurse.clamp01 (progress * (12 # 10) - inject_Z (Z.of_nat i) * (8 # 100)).
Proof. reflexivity. Qed.

Lemma clamp01_pos (n : Q) : 0 < Nurse.clamp01 n <-> 0 < n.
Proof.
  destruct (Nurse_clamp01_cases n) as [[H E]|[[H1 [H2 E]]|[H1 [H2 E]]]];
    rewrite E; split; intro; lra.
Qed.

(** NurseScribble draws ten lines.  Each line's width fraction lies in [0,1],
    is nondecreasing in the writing progress, never larger than that of an
    earlier line, and nonzero exactly when [progress * 1.2 > i * 0.08]. *)
Theorem NurseScribble_widths (progress : Q) :
  List.length (Nurse.NurseScribble progress) = 10%nat /\
  (forall i, (i < 10)%nat -> nth i (Nurse.NurseScribble progress) 0 = Nurse.scribblePct progress i) /\
  (forall i, 0 <= Nurse.scribblePct progress i <= 1) /\
  (forall i j, (i <= j)%nat -> Nurse.scribblePct progress j <= Nurse.scribblePct progress i) /\
  (forall progress' i, progress <= progress' ->
     Nurse.scribblePct progress i <= Nurse.scribblePct progress' i) /\
  (forall i, 0 < Nurse.scribblePct progress i <->
             inject_Z (Z.of_nat i) * (8 # 100) < progress * (12 # 10)).
Proof.
  split; [reflexivity|]. split; [|split; [|split; [|split]]].
  - intros i Hi. unfold Nurse.NurseScribble.
    rewrite nth_indep with (d' := Nurse.scribblePct progress 0%nat)
      by (rewrite length_map, length_seq; exact Hi).
    rewrite map_nth, seq_nth by exact Hi. reflexivity.
  - intro i. rewrite scribblePct_clamp. apply Nurse_clamp01_range.
  - intros i j Hij. rewrite !scribblePct_clamp. apply Nurse_clamp01_mono.
    pose proof (inject_nat_le i j Hij). lra.
  - intros progress' i H. rewrite !scribblePct_clamp. apply Nurse_clamp01_mono. lra.
  - intro i. rewrite scribblePct_clamp, clamp01_pos. split; intro; lra.
Qed.

Lemma writeProg_full (step : Q) : 35 # 100 <= step -> Nurse.writeProg step = 1.
Proof.
  intro H. unfold Nurse.writeProg, Nurse.mapRange, Qge_bool.
  destruct (Qle_bool step 0) eqn:E1.
  - apply Qle_bool_iff in E1. lra.
  - destruct (Qle_bool (35 # 100) step) eqn:E2; [reflexivity|].
    apply Qle_bool_false in E2. lra.
Qed.

(** Once the writing phase is over ([step >= 0.35], so [writeProg = 1]),
    exactly the first three scribble lines are drawn at full width, and the
    last line stops at 48% of the width. *)
Theorem NurseScribble_after_writing (step : Q) (H : 35 # 100 <= step) :
  (forall i, (i < 10)%nat ->
     (Nurse.scribblePct (Nurse.writeProg step) i == 1 <-> (i <= 2)%nat)) /\
  Nurse.scribblePct (Nurse.writeProg step) 9 == 12 # 25.
Proof.
  rewrite (writeProg_full step H). split; [|reflexivity].
  intros i Hi. rewrite <- Qeq_bool_iff, <- Nat.leb_le.
  do 10 (destruct i as [|i]; [reflexivity|]). lia.
Qed.

Lemma NurseScribble_after_writing_witness :
  Nurse.scribblePct (Nurse.writeProg (1 # 2)) 9 == 12 # 25.
Proof.
  refine (proj2 (NurseScribble_after_writing (1 # 2) _)).
  apply Qle_bool_imp_le; reflexivity.
Defined.

(** [ArrowToSystem] renders nothing exactly when [progress <= 0]; otherwise
    its dash length is positive, at most the line length 320 while
    [progress <= 1], equal to [320 * progress] once that exceeds the
    minimum [0.0001], and the arrow head is drawn exactly when
    [progress > 0.05]. *)
Theorem ArrowToSystem_spec (progress : Q) :
  (Nurse.ArrowToSystem progress = None <-> progress <= 0) /\
  (forall r, Nurse.ArrowToSystem progress = Some r ->
     0 < Nurse.dash r /\
     (progress <= 1 -> Nurse.dash r <= 320) /\
     (1 # 3200000 <= progress -> Nurse.dash r == 320 * progress) /\
     (Nurse.arrowHead r = true <-> 5 # 100 < progress)).
Proof.
  unfold Nurse.ArrowToSystem.
  destruct (Qle_bool progress 0) eqn:E.
  - apply Qle_bool_iff in E. split; [split; [intros _; exact E|reflexivity]|].
    intros r Hr. discriminate Hr.
  - apply Qle_bool_false in E. split; [split; [discriminate|intro; lra]|].
    intros r Hr. injection Hr as <-. simpl. rewrite Qlt_bool_iff.
    unfold Math_max.
    destruct (Qle_bool (320 * progress) (1 # 10000)) eqn:E2.
    + apply Qle_bool_iff in E2. repeat split; try (intro; lra); try lra; tauto.
    + apply Qle_bool_false in E2. repeat split; try (intro; lra); try lra; tauto.
Qed.

Lemma slice_pos (a b step : Q) : a < b ->
  (0 < Nurse.clamp01 (Nurse.mapRange step a b) <-> a < step).
Proof.
  intro Hab. rewrite clamp01_pos.
  destruct (mapRange_cases step a b) as [[H E]|[[H1 [H2 E]]|[H1 [H2 E]]]];
    rewrite E; split; intro; try lra.
  apply Qlt_shift_div_l; lra.
Qed.

(** The arrow-and-file cell of NurseAssessmentAnimation is rendered exactly
    when [step > 0.35]; when it is, the arrow is always drawn and the file
    packet is drawn exactly when [fileIconUrl] is a non-empty string (the
    [progress > 1] guard of FileTransfer never fires there). *)
Theorem arrowAndFile_visibility (step : Q) (fileIconUrl : option string) :
  (Nurse.arrowAndFile step fileIconUrl <> None <-> 35 # 100 < step) /\
  (forall arrow file, Nurse.arrowAndFile step fileIconUrl = Some (arrow, file) ->
     arrow <> None /\ (file <> None <-> Nurse.truthy fileIconUrl = true)).
Proof.
  assert (Ha : 0 < Nurse.arrowProg step <-> 35 # 100 < step)
    by (apply slice_pos; reflexivity).
  assert (Hf : 0 < Nurse.fileProg step <-> 35 # 100 < step)
    by (apply slice_pos; reflexivity).
  assert (Hf1 : Nurse.fileProg step <= 1).
  { apply (proj1 (slice_spec (35 # 100) (80 # 100) eq_refl step)). }
  unfold Nurse.arrowAndFile.
  destruct (Qlt_bool 0 (Nurse.arrowProg step) || Qlt_bool 0 (Nurse.fileProg step)) eqn:E.
  - apply orb_true_iff in E. rewrite !Qlt_bool_iff in E.
    assert (Hs : 35 # 100 < step) by (destruct E as [E|E]; tauto).
    split; [split; [intros _; exact Hs|discriminate]|].
    intros arrow file Hr. injection Hr as <- <-. split.
    + unfold Nurse.ArrowToSystem.
      destruct (Qle_bool (Nurse.arrowProg step) 0) eqn:E2; [|discriminate].
      apply Qle_bool_iff in E2. apply Ha in Hs. lra.
    + unfold Nurse.FileTransfer.
      destruct (Qle_bool (Nurse.fileProg step) 0) eqn:E2.
      { apply Qle_bool_iff in E2. apply Hf in Hs. lra. }
      destruct (Qlt_bool 1 (Nurse.fileProg step)) eqn:E3.
      { apply Qlt_bool_iff in E3. lra. }
      rewrite !orb_false_r.
      destruct (Nurse.truthy fileIconUrl); simpl; split; congruence.
  - apply orb_false_iff in E as [E1 E2].
    apply Qlt_bool_false in E1.
    split; [split; [intro H; contradiction H; reflexivity|intro Hs]|].
    + apply Ha in Hs. lra.
    + intros arrow file Hr. discriminate Hr.
Qed.

Lemma run_complete_gen (steps : list Q) :
  forall st, Nurse.onCompleteCalls st = (if Nurse.firedComplete st then 1 else 0)%nat ->
  let r := fold_left Nurse.completeEffect steps st in
  Nurse.firedComplete r = Nurse.firedComplete st || existsb (fun s => Qge_bool s 1) steps /\
  Nurse.onCompleteCalls r = (if Nurse.firedComplete r then 1 else 0)%nat.
Proof.
  induction steps as [|s rest IH]; intros st Hst; simpl.
  - rewrite orb_false_r. auto.
  - destruct (Nurse.firedComplete st) eqn:Ef.
    + assert (Hc : Nurse.completeEffect st s = st)
        by (unfold Nurse.completeEffect; rewrite Ef; reflexivity).
      rewrite Hc. destruct (IH st) as [H1 H2]; [rewrite Ef; exact Hst|].
      rewrite Ef in H1. simpl in H1. auto.
    + destruct (Qge_bool s 1) eqn:Es; simpl.
      * assert (Hc : Nurse.completeEffect st s =
                     {| Nurse.firedComplete := true;
                        Nurse.onCompleteCalls := S (Nurse.onCompleteCalls st) |})
          by (unfold Nurse.completeEffect; rewrite Ef, Es; reflexivity).
        rewrite Hc.
        destruct (IH {| Nurse.firedComplete := true;
                        Nurse.onCompleteCalls := S (Nurse.onCompleteCalls st) |})
          as [H1 H2]; simpl; [rewrite Hst; reflexivity|].
        simpl in H1. auto.
      * assert (Hc : Nurse.completeEffect st s = st)
          by (unfold Nurse.completeEffect; rewrite Ef, Es; reflexivity).
        rewrite Hc. destruct (IH st) as [H1 H2]; [rewrite Ef; exact Hst|].
        rewrite Ef in H1. auto.
Qed.

(** The completion effect of NurseAssessmentAnimation calls [onComplete]
    at most once over any sequence of renders, and it has called it exactly
    when some rendered [step] reached [1]. *)
Theorem onComplete_fires_once (steps : list Q) :
  (Nurse.onCompleteCalls (Nurse.run_complete steps) <= 1)%nat /\
  (Nurse.onCompleteCalls (Nurse.run_complete steps) = 1%nat <->
   existsb (fun s => Qge_bool s 1) steps = true).
Proof.
  unfold Nurse.run_complete.
  destruct (run_complete_gen steps {| Nurse.firedComplete := false;
                                      Nurse.onCompleteCalls := 0 |} eq_refl)
    as [H1 H2].
  simpl in H1. rewrite H2, H1.
  destruct (existsb _ steps); split; auto; split; auto; discriminate.
Qed.

Lemma elapsed_nonneg (l m speed : Q) :
  l <= m -> 0 <= speed -> 0 <= (m - l) * speed / Nurse.dur.
Proof.
  intros H Hs. apply Qle_shift_div_l; [reflexivity|].
  rewrite Qmult_0_l. apply Qmult_le_0_compat; lra.
Qed.

Lemma elapsed_split (l m L speed : Q) :
  (L - l) * speed / Nurse.dur == (m - l) * speed / Nurse.dur + (L - m) * speed / Nurse.dur.
Proof. unfold Nurse.dur, Qdiv. ring. Qed.

Lemma stepUpdater_le_one (dt speed s : Q) : Nurse.stepUpdater dt speed s <= 1.
Proof.
  unfold Nurse.stepUpdater, Qge_bool.
  destruct (Qle_bool 1 _) eqn:E; [apply Qle_refl|].
  apply Qle_bool_false in E. lra.
Qed.

Lemma run_ticks_last_ge (isPlaying : bool) (speed : Q) (frames : list Q) :
  forall st, Nurse.chronological (Nurse.last st) frames = true ->
  Nurse.last st <= Nurse.last (Nurse.run_ticks isPlaying speed st frames).
Proof.
  induction frames as [|now rest IH]; intros st Hc; simpl; [apply Qle_refl|].
  simpl in Hc. apply andb_true_iff in Hc as [H1 H2]. apply Qle_bool_iff in H1.
  specialize (IH (Nurse.tick isPlaying speed st now) H2). simpl in IH. lra.
Qed.

(** The playing animation-frame loop of NurseAssessmentAnimation does not
    depend on the frame rate: after any chronological sequence of frames,
    [step] is the start value advanced by the total elapsed time times
    [speed / 6000], capped at 1. *)
Theorem nurse_loop_frame_rate_independent (speed : Q) (st : Nurse.TickState)
    (frames : list Q) (Hspeed : 0 <= speed)
    (Hchrono : Nurse.chronological (Nurse.last st) frames = true)
    (Hstep : Nurse.step st <= 1) :
  Nurse.step (Nurse.run_ticks true speed st frames) ==
  Math_min 1 (Nurse.step st +
              (Nurse.last (Nurse.run_ticks true speed st frames) - Nurse.last st) * speed
              / Nurse.dur).
Proof.
  revert st Hchrono Hstep. induction frames as [|now rest IH]; intros st Hc Hs; simpl.
  - assert (Z0 : (Nurse.last st - Nurse.last st) * speed / Nurse.dur == 0)
      by (unfold Nurse.dur, Qdiv; ring).
    generalize dependent ((Nurse.last st - Nurse.last st) * speed / Nurse.dur).
    intros x Hx. unfold Math_min.
    destruct (Qle_bool 1 (Nurse.step st + x)) eqn:E.
    + apply Qle_bool_iff in E. lra.
    + lra.
  - apply andb_true_iff in Hc as [Hle Hc]. apply Qle_bool_iff in Hle.
    rewrite IH; [|exact Hc|apply stepUpdater_le_one].
    simpl.
    pose proof (elapsed_split (Nurse.last st) now
                  (Nurse.last (Nurse.run_ticks true speed (Nurse.tick true speed st now) rest))
                  speed) as Hsplit.
    assert (HA := elapsed_nonneg (Nurse.last st) now speed Hle Hspeed).
    assert (HB : 0 <= (Nurse.last (Nurse.run_ticks true speed (Nurse.tick true speed st now) rest)
                       - now) * speed / Nurse.dur).
    { apply Qle_shift_div_l; [reflexivity|]. rewrite Qmult_0_l.
      apply Qmult_le_0_compat; [|exact Hspeed].
      pose proof (run_ticks_last_ge true speed rest (Nurse.tick true speed st now) Hc).
      simpl in *. lra. }
    unfold Nurse.stepUpdater, Qge_bool, Math_min in *.
    generalize dependent ((Nurse.last (Nurse.run_ticks true speed (Nurse.tick true speed st now) rest)
                           - now) * speed / Nurse.dur).
    generalize dependent ((Nurse.last (Nurse.run_ticks true speed (Nurse.tick true speed st now) rest)
                           - Nurse.last st) * speed / Nurse.dur).
    generalize dependent ((now - Nurse.last st) * speed / Nurse.dur).
    intros a Ha T b HT Hb.
    destruct (Qle_bool 1 (Nurse.step st + a)) eqn:E1;
    [apply Qle_bool_iff in E1|apply Qle_bool_false in E1];
    destruct (Qle_bool 1 _) eqn:E2;
    [apply Qle_bool_iff in E2|apply Qle_bool_false in E2| apply Qle_bool_iff in E2|apply Qle_bool_false in E2];
    destruct (Qle_bool 1 (Nurse.step st + T)) eqn:E3;
    try (apply Qle_bool_iff in E3); try (apply Qle_bool_false in E3); lra.
Qed.

(** Witness: two frames at 3 s and 6 s from [step = 0], [last = 0], speed 1. *)
Lemma nurse_loop_frame_rate_independent_witness :
  Nurse.step (Nurse.run_ticks true 1 {| Nurse.step := 0; Nurse.last := 0 |} [3000; 6000]) ==
  Math_min 1 (0 + (Nurse.last (Nurse.run_ticks true 1
                 {| Nurse.step := 0; Nurse.last := 0 |} [3000; 6000]) - 0) * 1 / Nurse.dur).
Proof.
  apply (nurse_loop_frame_rate_independent 1 {| Nurse.step := 0; Nurse.last := 0 |}
           [3000; 6000]); [apply Qle_bool_imp_le; reflexivity | reflexivity |
                           apply Qle_bool_imp_le; reflexivity].
Defined.

Lemma doctor_render_edges (starts : list bool) :
  forall st,
  (forall a r b, Doctor.lastDeps st = Some (a, r, b) -> a = Doctor.prevRef st) ->
  Doctor.runId (fold_left Doctor.render (map (fun s => (s, None)) starts) st) =
  (Doctor.runId st + Doctor.rising_edges (Doctor.prevRef st) starts)%nat.
Proof.
  induction starts as [|s rest IH]; intros st Hinv; simpl; [lia|].
  rewrite IH.
  - simpl.
    destruct (Doctor.lastDeps st) as [[[a r] b]|] eqn:Ed.
    + specialize (Hinv a r b eq_refl). subst a.
      destruct (Doctor.prevRef st), s; simpl; rewrite ?andb_false_r; simpl; lia.
    + destruct (Doctor.prevRef st), s; simpl; lia.
  - simpl. intros a r b H. injection H as <- _ _. reflexivity.
Qed.

Lemma doctor_renders_edges (s0 : bool) (starts : list bool) :
  Doctor.runId (Doctor.doctor_renders (s0, None) (map (fun s => (s, None)) starts)) =
  Doctor.rising_edges s0 starts.
Proof.
  unfold Doctor.doctor_renders.
  change ((s0, None) :: map (fun s : bool => (s, None)) starts)
    with (map (fun s : bool => (s, @None Z)) (s0 :: starts)).
  rewrite doctor_render_edges; [|simpl; discriminate].
  simpl. destruct s0; reflexivity.
Qed.

(** Without a [resetToken], DoctorProcessAnimation starts a new run of its
    step animation (increments [runId]) exactly once per change of [start]
    from [false] to [true] between renders; re-renders with an unchanged
    [start] never restart it. *)
Theorem doctor_runs_on_rising_start (s0 : bool) (starts : list bool) :
  Doctor.runId (Doctor.doctor_renders (s0, None) (map (fun s => (s, None)) starts)) =
  Doctor.rising_edges s0 starts.
Proof. apply doctor_renders_edges. Qed.

Lemma controller_bottom_step (st : Combined.Controller) (e : Combined.ControllerEvent) :
  Combined.bottomStartedOnce (Combined.controller_step st e) =
  Combined.bottomStartedOnce st || Combined.is_top_complete e.
Proof.
  destruct e as [|[k|]]; simpl.
  - unfold Combined.handleTopComplete.
    destruct (Combined.bottomStartedOnce st) eqn:E; simpl; rewrite ?E; reflexivity.
  - rewrite orb_false_r. reflexivity.
  - rewrite orb_false_r. reflexivity.
Qed.

Lemma controller_run_gen (evs : list Combined.ControllerEvent) :
  forall st,
  Combined.bottomStartedOnce (Combined.controller_run st evs) =
    Combined.bottomStartedOnce st || existsb Combined.is_top_complete evs /\
  Combined.bridgeRun (Combined.controller_run st evs) =
    (Combined.bridgeRun st + list_sum (map Combined.triggers evs))%nat.
Proof.
  induction evs as [|e rest IH]; intros st; simpl.
  - rewrite orb_false_r. split; [reflexivity|lia].
  - unfold Combined.controller_run in *. simpl.
    destruct (IH (Combined.controller_step st e)) as [H1 H2].
    rewrite H1, H2, controller_bottom_step, orb_assoc. split; [reflexivity|].
    destruct e as [|[k|]]; simpl; unfold Combined.handleTopComplete;
      try (destruct (Combined.bottomStartedOnce st)); simpl; lia.
Qed.

(** CombinedAnimation's callbacks: [bottomStartedOnce] latches (once true it
    stays true), it is true exactly when the top animation has completed at
    least once, and [bridgeRun] counts the file runs, one per top completion
    and one per run of the restart-key effect with a defined key. *)
Theorem combined_controller_spec (evs : list Combined.ControllerEvent) :
  (forall st e, Combined.bottomStartedOnce st = true ->
     Combined.bottomStartedOnce (Combined.controller_step st e) = true) /\
  Combined.bottomStartedOnce (Combined.controller_run Combined.controller_init evs) =
    existsb Combined.is_top_complete evs /\
  Combined.bridgeRun (Combined.controller_run Combined.controller_init evs) =
    list_sum (map Combined.triggers evs).
Proof.
  split; [intros st e H; rewrite controller_bottom_step, H; reflexivity|].
  destruct (controller_run_gen evs Combined.controller_init) as [H1 H2].
  split; [exact H1|exact H2].
Qed.

Lemma trace_edges (evs : list Combined.ControllerEvent) :
  forall st,
  Doctor.rising_edges (Combined.bottomStartedOnce st)
    (map Combined.bottomStartedOnce (Combined.controller_trace st evs)) =
  (if Combined.bottomStartedOnce st then 0
   else if existsb Combined.is_top_complete evs then 1 else 0)%nat.
Proof.
  induction evs as [|e rest IH]; intros st; simpl;
    [destruct (Combined.bottomStartedOnce st); reflexivity|].
  rewrite IH, controller_bottom_step.
  destruct (Combined.bottomStartedOnce st), (Combined.is_top_complete e); simpl;
    try reflexivity; destruct (existsb _ rest); reflexivity.
Qed.

(** In CombinedAnimation the bottom pane's step animation runs at most once:
    its [runId] is 1 exactly when the top animation has completed, however
    many file runs follow. *)
Theorem bottom_pane_runs_once (evs : list Combined.ControllerEvent) :
  Doctor.runId (Combined.bottom_pane evs) =
  (if existsb Combined.is_top_complete evs then 1 else 0)%nat.
Proof.
  unfold Combined.bottom_pane.
  replace (map (fun st => (Combined.bottomStartedOnce st, None))
               (Combined.controller_trace Combined.controller_init evs))
    with (map (fun s : bool => (s, @None Z))
              (map Combined.bottomStartedOnce
                   (Combined.controller_trace Combined.controller_init evs)))
    by (rewrite map_map; reflexivity).
  rewrite doctor_renders_edges.
  apply (trace_edges evs Combined.controller_init).
Qed.

Lemma bezier_weights_nonneg (t : Q) : 0 <= t <= 1 ->
  0 <= (1 - t) * (1 - t) * (1 - t) /\ 0 <= 3 * ((1 - t) * (1 - t)) * t /\
  0 <= 3 * (1 - t) * (t * t) /\ 0 <= t * t * t.
Proof.
  intros [H0 H1].
  assert (Hu : 0 <= 1 - t) by lra.
  repeat split; repeat apply Qmult_le_0_compat; lra.
Qed.

Lemma bezier_coord_bounds (t p1 c1 c2 p2 m M : Q) : 0 <= t <= 1 ->
  m <= p1 <= M -> m <= c1 <= M -> m <= c2 <= M -> m <= p2 <= M ->
  m <= (1 - t) * (1 - t) * (1 - t) * p1 + 3 * ((1 - t) * (1 - t)) * t * c1 +
       3 * (1 - t) * (t * t) * c2 + t * t * t * p2 <= M.
Proof.
  intros Ht H1 H2 H3 H4.
  destruct (bezier_weights_nonneg t Ht) as [W1 [W2 [W3 W4]]].
  assert (L1 : 0 <= (1 - t) * (1 - t) * (1 - t) * (p1 - m)) by (apply Qmult_le_0_compat; lra).
  assert (L2 : 0 <= 3 * ((1 - t) * (1 - t)) * t * (c1 - m)) by (apply Qmult_le_0_compat; lra).
  assert (L3 : 0 <= 3 * (1 - t) * (t * t) * (c2 - m)) by (apply Qmult_le_0_compat; lra).
  assert (L4 : 0 <= t * t * t * (p2 - m)) by (apply Qmult_le_0_compat; lra).
  assert (U1 : 0 <= (1 - t) * (1 - t) * (1 - t) * (M - p1)) by (apply Qmult_le_0_compat; lra).
  assert (U2 : 0 <= 3 * ((1 - t) * (1 - t)) * t * (M - c1)) by (apply Qmult_le_0_compat; lra).
  assert (U3 : 0 <= 3 * (1 - t) * (t * t) * (M - c2)) by (apply Qmult_le_0_compat; lra).
  assert (U4 : 0 <= t * t * t * (M - p2)) by (apply Qmult_le_0_compat; lra).
  split; lra.
Qed.

(** For every [t] in [0,1], each coordinate of [cubicBezierPoint] lies
    between any lower and upper bound of that coordinate over the four
    control points (the curve stays in their bounding box). *)
Theorem cubicBezierPoint_in_bounding_box (t x1 y1 cx1 cy1 cx2 cy2 x2 y2 mx Mx my My : Q)
    (Ht : 0 <= t <= 1)
    (Hx : mx <= x1 <= Mx /\ mx <= cx1 <= Mx /\ mx <= cx2 <= Mx /\ mx <= x2 <= Mx)
    (Hy : my <= y1 <= My /\ my <= cy1 <= My /\ my <= cy2 <= My /\ my <= y2 <= My) :
  mx <= fst (Combined.cubicBezierPoint t x1 y1 cx1 cy1 cx2 cy2 x2 y2) <= Mx /\
  my <= snd (Combined.cubicBezierPoint t x1 y1 cx1 cy1 cx2 cy2 x2 y2) <= My.
Proof.
  destruct Hx as [X1 [X2 [X3 X4]]]. destruct Hy as [Y1 [Y2 [Y3 Y4]]].
  unfold Combined.cubicBezierPoint; simpl.
  split; apply bezier_coord_bounds; assumption.
Qed.

Lemma cubicBezierPoint_in_bounding_box_witness :
  0 <= fst (Combined.cubicBezierPoint (1 # 2) 0 0 1 1 2 1 3 0) <= 3.
Proof.
  refine (proj1 (cubicBezierPoint_in_bounding_box (1 # 2) 0 0 1 1 2 1 3 0 0 3 0 1 _ _ _));
    repeat split; apply Qle_bool_imp_le; reflexivity.
Defined.

Lemma clamp01_le0 (n : Q) : n <= 0 -> Nurse.clamp01 n = 0.
Proof.
  intro H. destruct (Nurse_clamp01_cases n) as [[H1 E]|[[H1 [H2 E]]|[H1 [H2 E]]]];
    [exact E|lra|lra].
Qed.

Lemma clamp01_ge1 (n : Q) : 1 <= n -> Nurse.clamp01 n = 1.
Proof.
  intro H. destruct (Nurse_clamp01_cases n) as [[H1 E]|[[H1 [H2 E]]|[H1 [H2 E]]]];
    [lra|exact E|lra].
Qed.

(** The file flying over the bridge of CombinedAnimation always stays within
    4%-90% of the width and -10%-90% of the height of the bridge; it sits at
    the top monitor (90%, -10%) before the run starts and at the bottom
    start icon (12%, 90%) once it is over, and it is drawn exactly when
    [fileIconUrl] is a non-empty string. *)
Theorem BridgePath_position (progress : Q) (fileIconUrl : option string) :
  4 <= Combined.leftPct (Combined.BridgePath progress fileIconUrl) <= 90 /\
  -10 <= Combined.topPct (Combined.BridgePath progress fileIconUrl) <= 90 /\
  (progress <= 0 ->
     Combined.leftPct (Combined.BridgePath progress fileIconUrl) == 90 /\
     Combined.topPct (Combined.BridgePath progress fileIconUrl) == -10) /\
  (1 <= progress ->
     Combined.leftPct (Combined.BridgePath progress fileIconUrl) == 12 /\
     Combined.topPct (Combined.BridgePath progress fileIconUrl) == 90) /\
  Combined.fileShown (Combined.BridgePath progress fileIconUrl) = Nurse.truthy fileIconUrl.
Proof.
  assert (Hc : Combined.clamp01 progress = Nurse.clamp01 progress) by reflexivity.
  assert (Hp : 0 <= Combined.easeInOutCubic (Combined.clamp01 progress) <= 1)
    by (rewrite Hc; apply easeInOutCubic_range, Nurse_clamp01_range).
  split; [|split; [|split; [|split]]].
  - unfold Combined.BridgePath.
    generalize dependent (Combined.easeInOutCubic (Combined.clamp01 progress)). intros p Hp.
    unfold Combined.cubicBezierPoint; simpl.
    assert (H : 40 <= (1 - p) * (1 - p) * (1 - p) * 900 + 3 * ((1 - p) * (1 - p)) * p * 900 +
                      3 * (1 - p) * (p * p) * 40 + p * p * p * 120 <= 900)
      by (apply bezier_coord_bounds; [exact Hp|lra..]).
    unfold Qdiv. rewrite <- ?Qmult_assoc. change (/ 1000 * 100) with (100 # 1000). lra.
  - unfold Combined.BridgePath.
    generalize dependent (Combined.easeInOutCubic (Combined.clamp01 progress)). intros p Hp.
    unfold Combined.cubicBezierPoint; simpl.
    assert (H : -20 <= (1 - p) * (1 - p) * (1 - p) * -20 + 3 * ((1 - p) * (1 - p)) * p * 0 +
                       3 * (1 - p) * (p * p) * 180 + p * p * p * 180 <= 180)
      by (apply bezier_coord_bounds; [exact Hp|lra..]).
    unfold Qdiv. rewrite <- ?Qmult_assoc. change (/ 200 * 100) with (100 # 200). lra.
  - intro H. unfold Combined.BridgePath. rewrite Hc, (clamp01_le0 _ H).
    split; reflexivity.
  - intro H. unfold Combined.BridgePath. rewrite Hc, (clamp01_ge1 _ H).
    split; reflexivity.
  - reflexivity.
Qed.

(** [recomputeCoords] leaves the coordinates unchanged exactly when one of
    the three refs is missing; otherwise the coordinates are relative to
    the container: moving the container, doctor and screen rects together
    (a page scroll) gives the same coordinates, and the file ends centred on
    the screen ([endLeft + 20] is the screen centre measured from the
    container). *)
Theorem recomputeCoords_relative (container doctor screen : option Doctor.Rect) (dx dy : Q) :
  (Doctor.recomputeCoords container doctor screen = None <->
   container = None \/ doctor = None \/ screen = None) /\
  (forall k, Doctor.recomputeCoords container doctor screen = Some k ->
   (exists k',
      Doctor.recomputeCoords (option_map (Doctor.translate dx dy) container)
        (option_map (Doctor.translate dx dy) doctor)
        (option_map (Doctor.translate dx dy) screen) = Some k' /\
      Doctor.startLeft k' == Doctor.startLeft k /\ Doctor.startTop k' == Doctor.startTop k /\
      Doctor.endLeft k' == Doctor.endLeft k /\ Doctor.endTop k' == Doctor.endTop k) /\
   (forall c s, container = Some c -> screen = Some s ->
      Doctor.endLeft k + 20 == Doctor.left s + Doctor.width s * (1 # 2) - Doctor.left c /\
      Doctor.endTop k + 20 == Doctor.top s + Doctor.height s * (1 # 2) - Doctor.top c)).
Proof.
  split.
  - destruct container, doctor, screen; simpl; split; intro H;
      try discriminate; try reflexivity;
      repeat match goal with H : _ \/ _ |- _ => destruct H as [H|H] end;
      try discriminate; auto.
  - intros k Hk.
    destruct container as [c|], doctor as [d|], screen as [s|]; simpl in Hk;
      try discriminate Hk.
    injection Hk as <-. split.
    + eexists. simpl. split; [reflexivity|]. simpl. repeat split; ring.
    + intros c' s' Hc Hs. injection Hc as <-. injection Hs as <-. simpl.
      split; ring.
Qed.
